(** * Pod health and restart predicates of the dependency-watchdog restarter

    A shallow embedding of [pkg/restarter/utils.go] and the properties its
    specification states about it.

    Conventions of the embedding:
    - a Go pointer [*T] is [ptr T = option T], [nil] being [None]; reading
      through a nil pointer panics, which the [result] monad records;
    - a Go slice [[]T] is [slice T = option (list T)]: [None] is the nil
      slice, [Some []] an allocated empty one (the source tells them apart
      with [conditions == nil]);
    - Go's [int], [int32] and [int64] are [Z], wrap-around written out where
      the source computes;
    - Go strings are [string], compared with [String.eqb]. *)

From Stdlib Require Import ZArith Lia.
From stdpp Require Import base option list strings.

Local Open Scope Z_scope.

(** ** Pointers, slices and panics *)

Definition ptr (A : Type) : Type := option A.
Definition slice (A : Type) : Type := option (list A).

(** Outcome of a Go call that may panic on a nil dereference. *)
Inductive result (A : Type) : Type :=
| Ok (a : A)
| Panic.
Arguments Ok {A} a.
Arguments Panic {A}.

Definition bind {A B : Type} (m : result A) (f : A → result B) : result B :=
  match m with
  | Ok a => f a
  | Panic => Panic
  end.

Notation "x <- m ;; k" := (bind m (λ x, k))
  (at level 100, m at next level, right associativity).

(** [*p] and [p.field]: panic on nil. *)
Definition deref {A : Type} (p : ptr A) : result A :=
  match p with
  | Some a => Ok a
  | None => Panic
  end.

(** [for _, x := range s]: a nil slice is ranged over as an empty one. *)
Definition elems {A : Type} (s : slice A) : list A :=
  match s with
  | Some l => l
  | None => []
  end.

(** [len(s)]; zero for the nil slice. *)
Definition len {A : Type} (s : slice A) : Z := Z.of_nat (length (elems s)).

(** ** Fixed-width integers *)

Definition wrap64 (z : Z) : Z := (z + 2 ^ 63) `mod` 2 ^ 64 - 2 ^ 63.

Definition int32_range (z : Z) : Prop := - 2 ^ 31 ≤ z < 2 ^ 31.

(** ** The platform's time library

    [time.Time] is modelled as Go stores a wall-clock reading: [ext], an
    [int64] count of seconds since January 1, year 1, 00:00:00 UTC, and the
    nanoseconds within the second, which the library keeps within
    [0, 999999999].  The record holds integers; they are read the way the
    fields are, [ext] as the [int64] it is and the nanoseconds within their
    range, so that every value of the record is a value of Go's type.
    Monotonic clock readings, which the timestamps decoded from the API
    do not carry, and locations, which no comparison looks at, are left
    out. *)
Module time.

(** [time.Duration] is an [int64] count of nanoseconds. *)
Definition Duration : Type := Z.

Definition Second : Duration := 1000000000.

(** [a * b] on [Duration], an [int64] multiplication. *)
Definition mul (a b : Duration) : Duration := wrap64 (a * b).

Record Time : Type := mkTime { ext : Z; wall : Z }.

(** [t.sec()]: the seconds since January 1, year 1. *)
Definition sec (t : Time) : Z := wrap64 (ext t).

(** [t.nsec()]: the nanoseconds within the second. *)
Definition nsec (t : Time) : Z := wall t `mod` 1000000000.

Definition IsZero (t : Time) : bool := (sec t =? 0) && (nsec t =? 0).

(** [t.addSec(d)]: the sum of the seconds, kept at the end of the range
    of [int64] it would leave:
    [sum := t.ext + d; if (sum > t.ext) == (d > 0) { t.ext = sum }
     else if d > 0 { t.ext = 1<<63 - 1 } else { t.ext = -(1<<63 - 1) }]. *)
Definition addSec (t : Time) (d : Z) : Time :=
  let sum := wrap64 (sec t + d) in
  if Bool.eqb (sec t <? sum) (0 <? d) then mkTime sum (nsec t)
  else if 0 <? d then mkTime (2 ^ 63 - 1) (nsec t)
  else mkTime (- (2 ^ 63 - 1)) (nsec t).

(** [t.Add(d)]: the duration split into seconds and nanoseconds (Go's [/]
    and [%] truncate), the nanoseconds carried into the seconds. *)
Definition Add (t : Time) (d : Duration) : Time :=
  let dsec := d ÷ 1000000000 in
  let nsec := nsec t + Z.rem d 1000000000 in
  if 1000000000 <=? nsec
  then addSec (mkTime (ext t) (nsec - 1000000000)) (dsec + 1)
  else if nsec <? 0
  then addSec (mkTime (ext t) (nsec + 1000000000)) (dsec - 1)
  else addSec (mkTime (ext t) nsec) dsec.

(** [t.Before(u)]: seconds first, then nanoseconds. *)
Definition Before (t u : Time) : bool :=
  (sec t <? sec u) || ((sec t =? sec u) && (nsec t <? nsec u)).

(** The instant [t] denotes, in nanoseconds since the zero instant. *)
Definition nanos (t : Time) : Z := sec t * 1000000000 + nsec t.

(** The time that denotes the instant [n]. *)
Definition of_nanos (n : Z) : Time := mkTime (n `div` 1000000000) (n `mod` 1000000000).

End time.

(** [metav1.Time] wraps [time.Time]. *)
Module metav1.

Record Time : Type := mkTime { Time_ : time.Time }.

Definition IsZero (t : Time) : bool := time.IsZero (Time_ t).

(** The promoted method [t.Add] of the embedded [time.Time]. *)
Definition Add (t : Time) (d : time.Duration) : time.Time :=
  time.Add (Time_ t) d.

Definition at_nanos (n : Z) : Time := mkTime (time.of_nanos n).

Definition nanos (t : Time) : Z := time.nanos (Time_ t).

End metav1.

(** ** The consumed platform types ([k8s.io/api/core/v1])

    Only the fields the restarter reads are kept.  [PodConditionType] and
    [ConditionStatus] are string types in Go, so a condition may carry any
    string. *)

Definition PodConditionType : Type := string.
Definition ConditionStatus : Type := string.

Definition PodReady : PodConditionType := "Ready".
Definition ConditionTrue : ConditionStatus := "True".
Definition ConditionFalse : ConditionStatus := "False".
Definition ConditionUnknown : ConditionStatus := "Unknown".

Module PodCondition.
Record t : Type := mk {
  Type' : PodConditionType;
  Status : ConditionStatus;
  LastTransitionTime : metav1.Time
}.
End PodCondition.

Module ContainerStateWaiting.
Record t : Type := mk { Reason : string; Message : string }.
End ContainerStateWaiting.

Module ContainerStateRunning.
Record t : Type := mk { StartedAt : metav1.Time }.
End ContainerStateRunning.

Module ContainerStateTerminated.
Record t : Type := mk { ExitCode : Z; Reason : string }.
End ContainerStateTerminated.

(** Go's [ContainerState] is a struct of three pointers, at most one of
    which the platform sets. *)
Module ContainerState.
Record t : Type := mk {
  Waiting : ptr ContainerStateWaiting.t;
  Running : ptr ContainerStateRunning.t;
  Terminated : ptr ContainerStateTerminated.t
}.
End ContainerState.

Module ContainerStatus.
Record t : Type := mk { Name : string; State : ContainerState.t }.
End ContainerStatus.

Module PodStatus.
Record t : Type := mk {
  Conditions : slice PodCondition.t;
  ContainerStatuses : slice ContainerStatus.t
}.
End PodStatus.

Module Pod.
Record t : Type := mk {
  DeletionTimestamp : ptr metav1.Time;
  Status : PodStatus.t
}.
End Pod.

Module EndpointAddress.
Record t : Type := mk { IP : string }.
End EndpointAddress.

Module EndpointSubset.
Record t : Type := mk { Addresses : slice EndpointAddress.t }.
End EndpointSubset.

(** Modelled from the spec: the package constant [CrashLoopBackOff] is
    declared outside [utils.go]; the specification gives it as the
    platform's well-known "CrashLoopBackOff" waiting reason. *)
Definition CrashLoopBackOff : string := "CrashLoopBackOff".

(** ** The condition lookups *)

(** The loop [for i := range conditions] of [GetPodConditionFromList],
    entered at index [i]. *)
Fixpoint GetPodConditionFromList_range (i : Z) (conditions : list PodCondition.t)
    (conditionType : PodConditionType) : Z * ptr PodCondition.t :=
  match conditions with
  | [] => (-1, None)
  | c :: rest =>
      if String.eqb (PodCondition.Type' c) conditionType
      then (i, Some c)
      else GetPodConditionFromList_range (i + 1) rest conditionType
  end.

Definition GetPodConditionFromList (conditions : slice PodCondition.t)
    (conditionType : PodConditionType) : Z * ptr PodCondition.t :=
  match conditions with
  | None => (-1, None)
  | Some l => GetPodConditionFromList_range 0 l conditionType
  end.

Definition GetPodCondition (status : ptr PodStatus.t)
    (conditionType : PodConditionType) : Z * ptr PodCondition.t :=
  match status with
  | None => (-1, None)
  | Some st => GetPodConditionFromList (PodStatus.Conditions st) conditionType
  end.

Definition GetPodReadyCondition (status : PodStatus.t) : ptr PodCondition.t :=
  let '(_, condition) := GetPodCondition (Some status) PodReady in
  condition.

Definition IsPodReadyConditionTrue (status : PodStatus.t) : bool :=
  let condition := GetPodReadyCondition status in
  match condition with
  | None => false
  | Some c => String.eqb (PodCondition.Status c) ConditionTrue
  end.

(** ** The pod predicates *)

Definition IsPodReady (pod : ptr Pod.t) : result bool :=
  p <- deref pod ;;
  Ok (IsPodReadyConditionTrue (Pod.Status p)).

Definition IsPodDeleted (pod : ptr Pod.t) : result bool :=
  p <- deref pod ;;
  match Pod.DeletionTimestamp p with
  | Some _ => Ok true
  | None => Ok false
  end.

(** The condition of the [if] that closes [IsPodAvailable],
    [minReadySeconds == 0 || !c.LastTransitionTime.IsZero() &&
     c.LastTransitionTime.Add(d).Before(now.Time)],
    evaluated left to right with Go's short-circuiting; [c] is read only
    when the first disjunct is false. *)
Definition soak_time_elapsed (c : ptr PodCondition.t) (minReadySeconds : Z)
    (minReadySecondsDuration : time.Duration) (now : metav1.Time) : result bool :=
  if minReadySeconds =? 0 then Ok true else
  cv <- deref c ;;
  Ok (negb (metav1.IsZero (PodCondition.LastTransitionTime cv))
        && time.Before
             (metav1.Add (PodCondition.LastTransitionTime cv) minReadySecondsDuration)
             (metav1.Time_ now)).

Definition IsPodAvailable (pod : ptr Pod.t) (minReadySeconds : Z)
    (now : metav1.Time) : result bool :=
  ready <- IsPodReady pod ;;
  if negb ready then Ok false else
  p <- deref pod ;;
  let c := GetPodReadyCondition (Pod.Status p) in
  let minReadySecondsDuration := time.mul minReadySeconds time.Second in
  elapsed <- soak_time_elapsed c minReadySeconds minReadySecondsDuration now ;;
  if elapsed then Ok true else Ok false.

Definition IsContainerInCrashLoopBackOff (containerState : ContainerState.t) : bool :=
  match ContainerState.Waiting containerState with
  | Some w => String.eqb (ContainerStateWaiting.Reason w) CrashLoopBackOff
  | None => false
  end.

(** The loop of [IsPodInCrashloopBackoff] over the container statuses. *)
Fixpoint IsPodInCrashloopBackoff_range (statuses : list ContainerStatus.t) : bool :=
  match statuses with
  | [] => false
  | containerStatus :: rest =>
      if IsContainerInCrashLoopBackOff (ContainerStatus.State containerStatus)
      then true
      else IsPodInCrashloopBackoff_range rest
  end.

Definition IsPodInCrashloopBackoff (status : PodStatus.t) : bool :=
  IsPodInCrashloopBackoff_range (elems (PodStatus.ContainerStatuses status)).

Definition ShouldDeletePod (pod : ptr Pod.t) : result bool :=
  deleted <- IsPodDeleted pod ;;
  if negb deleted
  then p <- deref pod ;; Ok (IsPodInCrashloopBackoff (Pod.Status p))
  else Ok false.

(** The loop of [IsReadyEndpointPresentInSubsets]. *)
Fixpoint IsReadyEndpointPresentInSubsets_range (subsets : list EndpointSubset.t) : bool :=
  match subsets with
  | [] => false
  | subset :: rest =>
      if negb (len (EndpointSubset.Addresses subset) =? 0)
      then true
      else IsReadyEndpointPresentInSubsets_range rest
  end.

Definition IsReadyEndpointPresentInSubsets (subsets : slice EndpointSubset.t) : bool :=
  IsReadyEndpointPresentInSubsets_range (elems subsets).

(** ** The configuration loader

    File reading and YAML decoding belong to the platform, and the type
    [ServiceDependants] is declared outside [utils.go]: they are the
    parameters of this section.  [ioutil.ReadFile] returns the bytes read
    and an error, [nil] ([None]) on success; [yaml.Unmarshal data p] writes
    through [p] and returns an error, so its model returns the value left
    behind the pointer together with the error. *)
Section Loader.

Variable ServiceDependants : Type.
Variable error : Type.
(** The value [new(ServiceDependants)] points to. *)
Variable zero : ServiceDependants.
Variable ioutil_ReadFile : string → slice Byte.byte * option error.
Variable yaml_Unmarshal :
  slice Byte.byte → ServiceDependants → ServiceDependants * option error.

Definition decodeConfigFile (data : slice Byte.byte)
    : ptr ServiceDependants * option error :=
  let dependants := zero in
  let '(dependants, err) := yaml_Unmarshal data dependants in
  match err with
  | Some e => (None, Some e)
  | None => (Some dependants, None)
  end.

Definition LoadServiceDependants (file : string)
    : ptr ServiceDependants * option error :=
  let '(data, err) := ioutil_ReadFile file in
  match err with
  | Some e => (None, Some e)
  | None => decodeConfigFile data
  end.

End Loader.

(** ** Vocabulary of the statements *)

(** "[c] has the requested type." *)
Definition has_type (ty : PodConditionType) (c : PodCondition.t) : Prop :=
  PodCondition.Type' c = ty.

#[global] Instance has_type_dec (ty : PodConditionType) (c : PodCondition.t) :
  Decision (has_type ty c) := decide (PodCondition.Type' c = ty).

(** [c], at index [i], is the first entry of [l] of type [ty]. *)
Definition first_of_type (ty : PodConditionType) (l : list PodCondition.t)
    (i : nat) (c : PodCondition.t) : Prop :=
  l !! i = Some c ∧ has_type ty c ∧
  ∀ (j : nat) (c' : PodCondition.t), l !! j = Some c' → (j < i)%nat → ¬ has_type ty c'.

(** "[c] is the Ready condition of [status]": the first entry of type
    [Ready] of its condition list. *)
Definition ReadyCondition (status : PodStatus.t) (c : PodCondition.t) : Prop :=
  ∃ (l : list PodCondition.t) (i : nat),
    PodStatus.Conditions status = Some l ∧ first_of_type PodReady l i c.

(** Two lists carry the same entries of type [ty] at the same places; the
    entries of other types may be permuted among the remaining places. *)
Definition same_places (ty : PodConditionType) (l1 l2 : list PodCondition.t) : Prop :=
  ∀ (i : nat) (c : PodCondition.t),
    l1 !! i = Some c ∧ has_type ty c ↔ l2 !! i = Some c ∧ has_type ty c.

(** The three states of a container, one pointer set and the others nil. *)
Definition is_Waiting (st : ContainerState.t) : Prop :=
  is_Some (ContainerState.Waiting st) ∧
  ContainerState.Running st = None ∧ ContainerState.Terminated st = None.

Definition is_Running (st : ContainerState.t) : Prop :=
  ContainerState.Waiting st = None ∧
  is_Some (ContainerState.Running st) ∧ ContainerState.Terminated st = None.

Definition is_Terminated (st : ContainerState.t) : Prop :=
  ContainerState.Waiting st = None ∧
  ContainerState.Running st = None ∧ is_Some (ContainerState.Terminated st).

(** The soak-time test of [IsPodAvailable] on a condition that is present,
    as one boolean formula. *)
Definition soak_formula (c : PodCondition.t) (s : Z) (now : metav1.Time) : bool :=
  (s =? 0) ||
  (negb (metav1.IsZero (PodCondition.LastTransitionTime c)) &&
   time.Before
     (metav1.Add (PodCondition.LastTransitionTime c) (time.mul s time.Second))
     (metav1.Time_ now)).

(** The instants a [time.Time] can denote: those whose seconds fit
    [int64]. *)
Definition time_range (n : Z) : Prop :=
  - 2 ^ 63 * 1000000000 ≤ n < 2 ^ 63 * 1000000000.

(** What [addSec] makes of a sum of seconds: the sum, or the end of the
    range it went past. *)
Definition saturate (x : Z) : Z :=
  if 2 ^ 63 <=? x then 2 ^ 63 - 1
  else if x <? - 2 ^ 63 then - (2 ^ 63 - 1)
  else x.

(** ** Pods, times and files of the examples *)

Definition cond (ty : PodConditionType) (st : ConditionStatus) (t : Z) : PodCondition.t :=
  PodCondition.mk ty st (metav1.at_nanos t).

Definition pod_with (conditions : slice PodCondition.t) : Pod.t :=
  Pod.mk None (PodStatus.mk conditions None).

(** An instant of the year 2026, in nanoseconds since the zero instant. *)
Definition t0 : Z := 63897000000000000000.

(** Ready since [t0]. *)
Definition pod_ready : Pod.t :=
  pod_with (Some [cond "Initialized" ConditionTrue t0; cond PodReady ConditionTrue t0]).

(** Ready, the transition never observed. *)
Definition pod_ready_unset : Pod.t :=
  pod_with (Some [cond PodReady ConditionTrue 0; cond "PodScheduled" ConditionTrue t0]).

(** Ready since ten seconds before the last second [time.Time] can hold. *)
Definition pod_ready_at_the_end : Pod.t :=
  pod_with (Some [PodCondition.mk PodReady ConditionTrue
                    (metav1.mkTime (time.mkTime (2 ^ 63 - 11) 0))]).

(** Two entries of type Ready, the first one False. *)
Definition pod_duplicate : Pod.t :=
  pod_with (Some [cond PodReady ConditionFalse t0; cond PodReady ConditionTrue t0]).

Definition waiting (reason : string) : ContainerStatus.t :=
  ContainerStatus.mk "app"
    (ContainerState.mk (Some (ContainerStateWaiting.mk reason "")) None None).

Definition running : ContainerStatus.t :=
  ContainerStatus.mk "sidecar"
    (ContainerState.mk None (Some (ContainerStateRunning.mk (metav1.at_nanos t0))) None).

(** Crash-looping and already marked for deletion. *)
Definition pod_crashing_deleted : Pod.t :=
  Pod.mk (Some (metav1.at_nanos t0))
         (PodStatus.mk None (Some [running; waiting CrashLoopBackOff])).

Definition pod_crashing : Pod.t :=
  Pod.mk None (PodStatus.mk None (Some [running; waiting CrashLoopBackOff])).

(** A file system with one readable file, and a decoder that refuses a
    document starting with a tab. *)
Definition example_ReadFile (file : string) : slice Byte.byte * option string :=
  if String.eqb file "/etc/dependants.yaml"
  then (Some [Byte.x09; Byte.x61], None)
  else (None, Some "open: no such file or directory").

Definition example_Unmarshal (data : slice Byte.byte) (v : nat) : nat * option string :=
  match elems data with
  | Byte.x09 :: _ => (v, Some "yaml: found character that cannot start any token")
  | l => (length l, None)
  end.

(** ** Vocabulary of the further properties *)

(** Every address of every subset, in order. *)
Definition all_addresses (subsets : slice EndpointSubset.t) : list EndpointAddress.t :=
  concat (map (λ subset, elems (EndpointSubset.Addresses subset)) (elems subsets)).

(** Ready since [t0], followed by a stale duplicate and another type. *)
Definition pod_ready_then_stale : Pod.t :=
  pod_with (Some [cond PodReady ConditionTrue t0; cond PodReady ConditionFalse 0;
                  cond "ContainersReady" ConditionFalse t0]).

(** * Properties *)

(** ** Arithmetic of the soak duration *)

Lemma wrap64_small (z : Z) : - 2 ^ 63 ≤ z < 2 ^ 63 → wrap64 z = z.
Proof.
  intros Hz. unfold wrap64.
  rewrite Z.mod_small by lia. lia.
Qed.

(** For an [int32] number of seconds the conversion to nanoseconds never
    leaves [int64]. *)
Lemma mul_Second_exact (s : Z) :
  int32_range s → time.mul s time.Second = s * 1000000000.
Proof.
  unfold int32_range, time.mul, time.Second. intros Hs.
  apply wrap64_small. lia.
Qed.

(** ** The time library's arithmetic *)

Lemma wrap64_range (z : Z) : - 2 ^ 63 ≤ wrap64 z < 2 ^ 63.
Proof.
  unfold wrap64. pose proof (Z.mod_pos_bound (z + 2 ^ 63) (2 ^ 64)). lia.
Qed.

Lemma wrap64_above (z : Z) : 2 ^ 63 ≤ z < 2 ^ 63 + 2 ^ 64 → wrap64 z = z - 2 ^ 64.
Proof.
  intros Hz. unfold wrap64.
  replace (z + 2 ^ 63) with (z + 2 ^ 63 - 2 ^ 64 + 1 * 2 ^ 64) by lia.
  rewrite Z_mod_plus_full, Z.mod_small by lia. lia.
Qed.

Lemma wrap64_below (z : Z) : - 2 ^ 63 - 2 ^ 64 ≤ z < - 2 ^ 63 → wrap64 z = z + 2 ^ 64.
Proof.
  intros Hz. unfold wrap64.
  replace (z + 2 ^ 63) with (z + 2 ^ 63 + 2 ^ 64 + (-1) * 2 ^ 64) by lia.
  rewrite Z_mod_plus_full, Z.mod_small by lia. lia.
Qed.

Lemma sec_range (t : time.Time) : - 2 ^ 63 ≤ time.sec t < 2 ^ 63.
Proof. apply wrap64_range. Qed.

Lemma nsec_range (t : time.Time) : 0 ≤ time.nsec t < 1000000000.
Proof. unfold time.nsec. apply Z.mod_pos_bound. lia. Qed.

(** Every time denotes an instant its representation can hold. *)
Lemma nanos_range (t : time.Time) : time_range (time.nanos t).
Proof.
  unfold time_range, time.nanos.
  pose proof (sec_range t). pose proof (nsec_range t). lia.
Qed.

(** [Before] is the strict order of the instants. *)
Lemma Before_nanos (t u : time.Time) :
  time.Before t u = (time.nanos t <? time.nanos u).
Proof.
  unfold time.Before, time.nanos.
  pose proof (nsec_range t). pose proof (nsec_range u).
  destruct (Z.ltb_spec (time.sec t) (time.sec u)); simpl.
  - symmetry. apply Z.ltb_lt. lia.
  - destruct (Z.eqb_spec (time.sec t) (time.sec u)) as [->|Hne]; simpl.
    + destruct (Z.ltb_spec (time.nsec t) (time.nsec u));
        symmetry; [apply Z.ltb_lt|apply Z.ltb_ge]; lia.
    + symmetry. apply Z.ltb_ge. lia.
Qed.

(** The zero time is the one that denotes the instant 0. *)
Lemma IsZero_nanos (t : time.Time) : time.IsZero t = (time.nanos t =? 0).
Proof.
  unfold time.IsZero, time.nanos. pose proof (nsec_range t).
  destruct (Z.eqb_spec (time.sec t) 0) as [->|Hne]; simpl; [done|].
  symmetry. apply Z.eqb_neq. lia.
Qed.

Lemma nsec_mkTime (x : Z) (t : time.Time) :
  time.nsec (time.mkTime x (time.nsec t)) = time.nsec t.
Proof. unfold time.nsec. simpl. apply Z.mod_mod. lia. Qed.

(** [addSec] adds the seconds and stops at the ends of [int64]. *)
Lemma addSec_saturate (t : time.Time) (d : Z) :
  - 2 ^ 63 ≤ d < 2 ^ 63 →
  time.sec (time.addSec t d) = saturate (time.sec t + d) ∧
  time.nsec (time.addSec t d) = time.nsec t.
Proof.
  intros Hd. pose proof (sec_range t) as Hsec.
  unfold time.addSec, saturate.
  destruct (Z.leb_spec (2 ^ 63) (time.sec t + d)) as [Hover|Hnover].
  - rewrite wrap64_above by lia.
    replace (time.sec t <? time.sec t + d - 2 ^ 64) with false
      by (symmetry; apply Z.ltb_ge; lia).
    replace (0 <? d) with true by (symmetry; apply Z.ltb_lt; lia).
    simpl. split; [|apply nsec_mkTime].
    unfold time.sec. simpl. apply wrap64_small. lia.
  - destruct (Z.ltb_spec (time.sec t + d) (- 2 ^ 63)) as [Hunder|Hnunder].
    + rewrite wrap64_below by lia.
      replace (time.sec t <? time.sec t + d + 2 ^ 64) with true
        by (symmetry; apply Z.ltb_lt; lia).
      replace (0 <? d) with false by (symmetry; apply Z.ltb_ge; lia).
      simpl. split; [|apply nsec_mkTime].
      unfold time.sec. simpl. apply wrap64_small. lia.
    + rewrite (wrap64_small (time.sec t + d)) by lia.
      replace (Bool.eqb (time.sec t <? time.sec t + d) (0 <? d)) with true.
      * split; [|apply nsec_mkTime].
        unfold time.sec at 1. simpl. apply wrap64_small. lia.
      * symmetry. apply Bool.eqb_true_iff.
        destruct (Z.ltb_spec 0 d); [apply Z.ltb_lt|apply Z.ltb_ge]; lia.
Qed.

(** [Add] of a whole number of seconds: the seconds are added and kept
    within [int64], the nanoseconds stay. *)
Lemma Add_seconds (t : time.Time) (k : Z) :
  - 2 ^ 63 ≤ k < 2 ^ 63 →
  time.nanos (time.Add t (k * 1000000000))
  = saturate (time.sec t + k) * 1000000000 + time.nsec t.
Proof.
  intros Hk. pose proof (nsec_range t) as Hnsec.
  unfold time.Add. rewrite Z.quot_mul, Z.rem_mul, Z.add_0_r by lia.
  replace (1000000000 <=? time.nsec t) with false by (symmetry; apply Z.leb_gt; lia).
  replace (time.nsec t <? 0) with false by (symmetry; apply Z.ltb_ge; lia).
  destruct (addSec_saturate (time.mkTime (time.ext t) (time.nsec t)) k Hk)
    as [Hsec Hns].
  unfold time.nanos. rewrite Hsec, Hns, nsec_mkTime. reflexivity.
Qed.

(** Within the range of the representation [Add] is exact. *)
Lemma Add_seconds_exact (t : time.Time) (k : Z) :
  - 2 ^ 63 ≤ k < 2 ^ 63 →
  time_range (time.nanos t + k * 1000000000) →
  time.nanos (time.Add t (k * 1000000000)) = time.nanos t + k * 1000000000.
Proof.
  intros Hk Hrange. rewrite Add_seconds by done.
  unfold time_range, time.nanos in *. pose proof (nsec_range t).
  unfold saturate.
  destruct (Z.leb_spec (2 ^ 63) (time.sec t + k)); [lia|].
  destruct (Z.ltb_spec (time.sec t + k) (- 2 ^ 63)); lia.
Qed.

(** So it is for every [int64] duration, the nanoseconds carried into the
    seconds in both directions. *)
Lemma Add_exact (t : time.Time) (d : time.Duration) :
  - 2 ^ 63 ≤ d < 2 ^ 63 →
  time_range (time.nanos t + d) →
  time.nanos (time.Add t d) = time.nanos t + d.
Proof.
  intros Hd Hrange. pose proof (nsec_range t) as Hnsec. pose proof (sec_range t) as Hsec.
  pose proof (Z.quot_rem' d 1000000000) as Hqr.
  assert (Hr : - 1000000000 < Z.rem d 1000000000 < 1000000000).
  { pose proof (Z.rem_bound_abs d 1000000000). lia. }
  assert (Hq : - 2 ^ 63 ≤ d ÷ 1000000000 - 1 ∧ d ÷ 1000000000 + 1 < 2 ^ 63) by lia.
  unfold time_range, time.nanos in Hrange.
  assert (Hstep : ∀ n' k : Z,
            0 ≤ n' < 1000000000 → - 2 ^ 63 ≤ k < 2 ^ 63 →
            (time.sec t + k) * 1000000000 + n' = time.nanos t + d →
            time.nanos (time.addSec (time.mkTime (time.ext t) n') k) = time.nanos t + d).
  { intros n' k Hn' Hk Heq.
    destruct (addSec_saturate (time.mkTime (time.ext t) n') k Hk) as [Hs Hn].
    unfold time.nanos in *. rewrite Hs, Hn.
    unfold time.nsec at 1. simpl. rewrite Z.mod_small by done.
    change (time.sec (time.mkTime (time.ext t) n')) with (time.sec t).
    unfold saturate.
    destruct (Z.leb_spec (2 ^ 63) (time.sec t + k)); [lia|].
    destruct (Z.ltb_spec (time.sec t + k) (- 2 ^ 63)); lia. }
  unfold time.Add.
  destruct (Z.leb_spec 1000000000 (time.nsec t + Z.rem d 1000000000)).
  - apply Hstep; unfold time.nanos; lia.
  - destruct (Z.ltb_spec (time.nsec t + Z.rem d 1000000000) 0).
    + apply Hstep; unfold time.nanos; lia.
    + apply Hstep; unfold time.nanos; lia.
Qed.

(** Going forward, a longer duration never gives an earlier time, the
    saturation included. *)
Lemma Add_seconds_mono (t : time.Time) (k k' : Z) :
  0 ≤ k' ≤ k → k < 2 ^ 63 →
  time.nanos (time.Add t (k' * 1000000000)) ≤ time.nanos (time.Add t (k * 1000000000)).
Proof.
  intros Hk Hk63. rewrite !Add_seconds by lia.
  pose proof (sec_range t). unfold saturate.
  destruct (Z.leb_spec (2 ^ 63) (time.sec t + k'));
    destruct (Z.leb_spec (2 ^ 63) (time.sec t + k));
    destruct (Z.ltb_spec (time.sec t + k') (- 2 ^ 63));
    destruct (Z.ltb_spec (time.sec t + k) (- 2 ^ 63)); lia.
Qed.

(** ** The linear scan *)

Lemma first_of_type_find ty l i c :
  first_of_type ty l i c ↔ list_find (has_type ty) l = Some (i, c).
Proof. unfold first_of_type. by rewrite list_find_Some. Qed.

(** The loop computes stdpp's [list_find], the index counted from the
    entry index. *)
Lemma GetPodConditionFromList_range_find (l : list PodCondition.t) (i : Z) ty :
  GetPodConditionFromList_range i l ty =
  match list_find (has_type ty) l with
  | Some (k, c) => (i + Z.of_nat k, Some c)
  | None => (-1, None)
  end.
Proof.
  revert i. induction l as [|c l IH]; intros i; simpl; [done|].
  destruct (String.eqb_spec (PodCondition.Type' c) ty) as [Heq|Hne].
  - rewrite decide_True by done. f_equal. lia.
  - rewrite decide_False by done. rewrite IH.
    destruct (list_find (has_type ty) l) as [[k c']|]; simpl; [|done].
    f_equal. lia.
Qed.

Lemma GetPodConditionFromList_find (l : list PodCondition.t) ty :
  GetPodConditionFromList (Some l) ty =
  match list_find (has_type ty) l with
  | Some (k, c) => (Z.of_nat k, Some c)
  | None => (-1, None)
  end.
Proof.
  unfold GetPodConditionFromList. rewrite GetPodConditionFromList_range_find.
  by destruct (list_find (has_type ty) l) as [[k c]|].
Qed.

(** The entry found is the head of the sub-list of entries of the
    requested type. *)
Lemma list_find_head_filter ty (l : list PodCondition.t) :
  snd <$> list_find (has_type ty) l = head (filter (has_type ty) l).
Proof.
  induction l as [|c l IH]; simpl; [done|].
  rewrite filter_cons. destruct (decide (has_type ty c)); simpl; [done|].
  rewrite <- IH. by destruct (list_find (has_type ty) l) as [[k c']|].
Qed.

Lemma GetPodConditionFromList_head_filter ty (l : list PodCondition.t) :
  snd (GetPodConditionFromList (Some l) ty) = head (filter (has_type ty) l).
Proof.
  rewrite GetPodConditionFromList_find, <- list_find_head_filter.
  by destruct (list_find (has_type ty) l) as [[k c]|].
Qed.

(** Moving entries of other types among the places they occupy changes
    nothing of what [list_find] returns. *)
Lemma list_find_same_places ty (l1 l2 : list PodCondition.t) :
  same_places ty l1 l2 →
  list_find (has_type ty) l1 = list_find (has_type ty) l2.
Proof.
  unfold same_places. intros Hsame.
  assert (Hstep : ∀ la lb : list PodCondition.t,
    (∀ (i : nat) c, la !! i = Some c ∧ has_type ty c → lb !! i = Some c ∧ has_type ty c) →
    (∀ (i : nat) c, lb !! i = Some c ∧ has_type ty c → la !! i = Some c ∧ has_type ty c) →
    ∀ i c, list_find (has_type ty) la = Some (i, c) →
           list_find (has_type ty) lb = Some (i, c)).
  { intros la lb Hab Hba i c (Hi & Hty & Hmin)%list_find_Some.
    apply list_find_Some. destruct (Hab i c) as [Hi' _]; [done|].
    split_and!; [done..|].
    intros j y Hj Hlt Hy. destruct (Hba j y) as [Hj' _]; [done|].
    by eapply Hmin. }
  destruct (list_find (has_type ty) l1) as [[i c]|] eqn:H1.
  - symmetry. eapply (Hstep l1 l2); [intros; by apply Hsame..|done].
  - destruct (list_find (has_type ty) l2) as [[i c]|] eqn:H2; [|done].
    erewrite (Hstep l2 l1) in H1; [done|intros; by apply Hsame..|done].
Qed.

(** Entries of other types in front of a match are stepped over, and
    nothing behind the match is looked at. *)
Lemma GetPodConditionFromList_range_app (l1 l2 : list PodCondition.t) c ty (i : Z) :
  Forall (λ c', PodCondition.Type' c' ≠ ty) l1 →
  PodCondition.Type' c = ty →
  GetPodConditionFromList_range i (l1 ++ c :: l2) ty = (i + Z.of_nat (length l1), Some c).
Proof.
  intros Hl1 Hc. revert i.
  induction Hl1 as [|c' l1 Hc' _ IH]; intros i; simpl.
  - apply String.eqb_eq in Hc. rewrite Hc. f_equal. lia.
  - apply String.eqb_neq in Hc'. rewrite Hc', IH. f_equal. lia.
Qed.

(** C6. [GetPodConditionFromList] returns the not-found sentinel [(-1, nil)]
    for the nil list, for the empty list and for a list with no entry of
    the requested type; when an entry of the requested type exists it
    returns the first one, with its index, whatever follows it (duplicates
    included).  The entry returned depends only on the entries of the
    requested type and their order: two lists with the same sub-list of
    such entries give the same entry; and when the entries of other types
    are permuted among the places they occupy, index and entry are both
    unchanged. *)
Theorem GetPodConditionFromList_first_match (ty : PodConditionType) :
  GetPodConditionFromList None ty = (-1, None) ∧
  GetPodConditionFromList (Some []) ty = (-1, None) ∧
  (∀ l : list PodCondition.t,
     Forall (λ c, PodCondition.Type' c ≠ ty) l →
     GetPodConditionFromList (Some l) ty = (-1, None)) ∧
  (∀ l : list PodCondition.t,
     Exists (λ c, PodCondition.Type' c = ty) l →
     ∃ (i : nat) (c : PodCondition.t),
       GetPodConditionFromList (Some l) ty = (Z.of_nat i, Some c) ∧
       first_of_type ty l i c) ∧
  (∀ (l1 l2 : list PodCondition.t) (c : PodCondition.t),
     Forall (λ c', PodCondition.Type' c' ≠ ty) l1 →
     PodCondition.Type' c = ty →
     GetPodConditionFromList (Some (l1 ++ c :: l2)) ty
       = (Z.of_nat (length l1), Some c)) ∧
  (∀ l1 l2 : list PodCondition.t,
     filter (has_type ty) l1 = filter (has_type ty) l2 →
     snd (GetPodConditionFromList (Some l1) ty)
       = snd (GetPodConditionFromList (Some l2) ty)) ∧
  (∀ l1 l2 : list PodCondition.t,
     same_places ty l1 l2 →
     GetPodConditionFromList (Some l1) ty = GetPodConditionFromList (Some l2) ty).
Proof.
  split_and!; try done.
  - intros l Hall. rewrite GetPodConditionFromList_find.
    apply (list_find_None (has_type ty)) in Hall. by rewrite Hall.
  - intros l Hex. rewrite GetPodConditionFromList_find.
    destruct (list_find (has_type ty) l) as [[k c]|] eqn:Hfind.
    + exists k, c. split; [done|]. by apply first_of_type_find.
    + apply (list_find_None (has_type ty)) in Hfind.
      apply Exists_exists in Hex as (c & Hin & Hc).
      rewrite Forall_forall in Hfind. by destruct (Hfind c Hin).
  - intros l1 l2 c Hl1 Hc. unfold GetPodConditionFromList.
    by rewrite GetPodConditionFromList_range_app.
  - intros l1 l2 Hfilter.
    by rewrite !GetPodConditionFromList_head_filter, Hfilter.
  - intros l1 l2 Hsame.
    by rewrite !GetPodConditionFromList_find, (list_find_same_places ty l1 l2).
Qed.

(** The first-match property at a list with a duplicate: the earlier Ready
    entry is returned with index 1, and swapping the two entries of other
    types around it changes nothing. *)
Lemma GetPodConditionFromList_first_match_witness :
  GetPodConditionFromList
    (Some ([cond "Initialized" ConditionTrue t0]
           ++ cond PodReady ConditionFalse t0
           :: [cond "PodScheduled" ConditionTrue t0; cond PodReady ConditionTrue t0]))
    PodReady = (1, Some (cond PodReady ConditionFalse t0)) ∧
  GetPodConditionFromList
    (Some [cond "Initialized" ConditionTrue t0; cond PodReady ConditionFalse t0;
           cond "PodScheduled" ConditionTrue t0; cond PodReady ConditionTrue t0])
    PodReady =
  GetPodConditionFromList
    (Some [cond "PodScheduled" ConditionTrue t0; cond PodReady ConditionFalse t0;
           cond "Initialized" ConditionTrue t0; cond PodReady ConditionTrue t0])
    PodReady.
Proof.
  destruct (GetPodConditionFromList_first_match PodReady)
    as (_ & _ & _ & _ & Hfirst & _ & Hplaces).
  split.
  - apply (Hfirst [cond "Initialized" ConditionTrue t0]).
    + repeat constructor; discriminate.
    + reflexivity.
  - apply Hplaces. intros i c.
    destruct i as [|[|[|[|i]]]]; simpl; unfold has_type;
      split; intros [[= <-] Hty]; done.
Defined.

(** The index is the place of the match: it moves when an entry of another
    type is moved across the match, the entry returned staying the same. *)
Remark GetPodConditionFromList_index_follows_place :
  GetPodConditionFromList
    (Some [cond "Initialized" ConditionTrue t0; cond PodReady ConditionTrue t0]) PodReady
    = (1, Some (cond PodReady ConditionTrue t0)) ∧
  GetPodConditionFromList
    (Some [cond PodReady ConditionTrue t0; cond "Initialized" ConditionTrue t0]) PodReady
    = (0, Some (cond PodReady ConditionTrue t0)).
Proof. split; reflexivity. Qed.

(** C10. Called with a nil status pointer, [GetPodCondition] returns the
    not-found sentinel, index [-1] and a nil condition, for every condition
    type; with a status it is the lookup in the status's condition list. *)
Theorem GetPodCondition_nil_status (conditionType : PodConditionType) :
  GetPodCondition None conditionType = (-1, None) ∧
  ∀ status : PodStatus.t,
    GetPodCondition (Some status) conditionType
      = GetPodConditionFromList (PodStatus.Conditions status) conditionType.
Proof. split; [reflexivity|]. intros status. reflexivity. Qed.

(** ** The Ready condition of a pod *)

Lemma GetPodReadyCondition_find status :
  GetPodReadyCondition status =
  match PodStatus.Conditions status with
  | Some l => snd <$> list_find (has_type PodReady) l
  | None => None
  end.
Proof.
  unfold GetPodReadyCondition, GetPodCondition.
  destruct (PodStatus.Conditions status) as [l|]; [|done].
  rewrite GetPodConditionFromList_find.
  by destruct (list_find (has_type PodReady) l) as [[k c]|].
Qed.

Lemma GetPodReadyCondition_Some status c :
  GetPodReadyCondition status = Some c ↔ ReadyCondition status c.
Proof.
  rewrite GetPodReadyCondition_find. unfold ReadyCondition.
  destruct (PodStatus.Conditions status) as [l|].
  - destruct (list_find (has_type PodReady) l) as [[k c']|] eqn:Hfind; simpl.
    + split.
      * intros [= ->]. exists l, k. by rewrite first_of_type_find.
      * intros (l' & i & [= <-] & Hfirst%first_of_type_find). congruence.
    + split; [done|].
      intros (l' & i & [= <-] & Hfirst%first_of_type_find). congruence.
  - split; [done|]. by intros (l' & i & ? & _).
Qed.

Lemma GetPodReadyCondition_None status :
  GetPodReadyCondition status = None ↔
  Forall (λ c, PodCondition.Type' c ≠ PodReady) (elems (PodStatus.Conditions status)).
Proof.
  rewrite GetPodReadyCondition_find.
  destruct (PodStatus.Conditions status) as [l|]; simpl.
  - destruct (list_find (has_type PodReady) l) as [[k c']|] eqn:Hfind; simpl.
    + split; [done|]. intros Hall.
      apply (list_find_None (has_type PodReady)) in Hall. congruence.
    + split; [|done]. intros _.
      by apply (list_find_None (has_type PodReady)).
  - split; [by constructor|done].
Qed.

(** A pod has at most one Ready condition. *)
Lemma ReadyCondition_unique status c1 c2 :
  ReadyCondition status c1 → ReadyCondition status c2 → c1 = c2.
Proof. rewrite <- !GetPodReadyCondition_Some. congruence. Qed.

(** ** [IsPodReady] and [IsPodAvailable] as boolean formulas *)

Lemma IsPodReady_unfold (pod : Pod.t) :
  IsPodReady (Some pod) =
  Ok match GetPodReadyCondition (Pod.Status pod) with
     | Some c => String.eqb (PodCondition.Status c) ConditionTrue
     | None => false
     end.
Proof. reflexivity. Qed.

Lemma IsPodAvailable_unfold (pod : Pod.t) (s : Z) (now : metav1.Time) :
  IsPodAvailable (Some pod) s now =
  Ok match GetPodReadyCondition (Pod.Status pod) with
     | Some c => String.eqb (PodCondition.Status c) ConditionTrue && soak_formula c s now
     | None => false
     end.
Proof.
  unfold IsPodAvailable, IsPodReady, IsPodReadyConditionTrue, soak_time_elapsed,
    soak_formula. simpl.
  destruct (GetPodReadyCondition (Pod.Status pod)) as [c|]; simpl; [|done].
  destruct (String.eqb (PodCondition.Status c) ConditionTrue); simpl; [|done].
  destruct (s =? 0); simpl; [done|].
  by destruct (_ && _).
Qed.

Lemma IsPodReady_true_iff (pod : Pod.t) :
  IsPodReady (Some pod) = Ok true ↔
  ∃ c, ReadyCondition (Pod.Status pod) c ∧ PodCondition.Status c = ConditionTrue.
Proof.
  rewrite IsPodReady_unfold.
  destruct (GetPodReadyCondition (Pod.Status pod)) as [c|] eqn:Hc.
  - apply GetPodReadyCondition_Some in Hc. split.
    + intros [= Hst%String.eqb_eq]. by exists c.
    + intros (c' & Hc' & Hst). rewrite (ReadyCondition_unique _ _ _ Hc Hc').
      apply String.eqb_eq in Hst. by rewrite Hst.
  - split; [done|]. intros (c' & Hc'%GetPodReadyCondition_Some & _). congruence.
Qed.

Lemma soak_formula_iff (c : PodCondition.t) (s : Z) (now : metav1.Time) :
  int32_range s →
  time_range (metav1.nanos (PodCondition.LastTransitionTime c) + s * 1000000000) →
  soak_formula c s now = true ↔
  s = 0 ∨
  (metav1.nanos (PodCondition.LastTransitionTime c) ≠ 0 ∧
   metav1.nanos (PodCondition.LastTransitionTime c) + s * 1000000000 < metav1.nanos now).
Proof.
  intros Hs Hrange. unfold soak_formula, metav1.IsZero, metav1.Add, metav1.nanos in *.
  rewrite mul_Second_exact, Before_nanos, IsZero_nanos by done.
  rewrite Add_seconds_exact by (unfold int32_range in Hs; done || lia).
  rewrite orb_true_iff, andb_true_iff, negb_true_iff.
  rewrite Z.eqb_eq, Z.eqb_neq, Z.ltb_lt. done.
Qed.

(** C3, as the code has it.  A pod with no condition of type Ready (the
    list nil or empty included) is not ready and not available, for every
    [minReadySeconds] and [now]; and [IsPodReady] is true exactly when a
    condition of type Ready exists and the status of the first one in the
    list is True. *)
Theorem IsPodReady_first_Ready_condition (pod : Pod.t) :
  (Forall (λ c, PodCondition.Type' c ≠ PodReady)
          (elems (PodStatus.Conditions (Pod.Status pod))) →
   IsPodReady (Some pod) = Ok false ∧
   ∀ (s : Z) (now : metav1.Time), IsPodAvailable (Some pod) s now = Ok false) ∧
  (IsPodReady (Some pod) = Ok true ↔
   ∃ c, ReadyCondition (Pod.Status pod) c ∧ PodCondition.Status c = ConditionTrue) ∧
  (IsPodReady (Some pod) = Ok true ∨ IsPodReady (Some pod) = Ok false).
Proof.
  split_and!.
  - intros Hnone%GetPodReadyCondition_None. split.
    + by rewrite IsPodReady_unfold, Hnone.
    + intros s now. by rewrite IsPodAvailable_unfold, Hnone.
  - apply IsPodReady_true_iff.
  - rewrite IsPodReady_unfold. destruct (match _ with Some _ => _ | None => _ end); auto.
Qed.

(** The pods without conditions are not ready, and the pod ready since [t0]
    is. *)
Lemma IsPodReady_first_Ready_condition_witness :
  (IsPodReady (Some (pod_with None)) = Ok false ∧
   ∀ (s : Z) (now : metav1.Time), IsPodAvailable (Some (pod_with None)) s now = Ok false) ∧
  (IsPodReady (Some (pod_with (Some []))) = Ok false ∧
   ∀ (s : Z) (now : metav1.Time),
     IsPodAvailable (Some (pod_with (Some []))) s now = Ok false) ∧
  IsPodReady (Some pod_ready) = Ok true.
Proof.
  split; [|split].
  - apply (IsPodReady_first_Ready_condition (pod_with None)). constructor.
  - apply (IsPodReady_first_Ready_condition (pod_with (Some []))). constructor.
  - apply (IsPodReady_first_Ready_condition pod_ready).
    exists (cond PodReady ConditionTrue t0). split; [|reflexivity].
    exists [cond "Initialized" ConditionTrue t0; cond PodReady ConditionTrue t0], 1%nat.
    split; [reflexivity|]. split; [reflexivity|]. split; [reflexivity|].
    intros j c' Hj Hlt. destruct j as [|j]; [|lia].
    injection Hj as <-. discriminate.
Defined.

(** C3 as stated fails on duplicates: [pod_duplicate] carries a condition of
    type Ready whose status is True, and is not ready, its first Ready
    condition being False. *)
Lemma IsPodReady_duplicate_counterexample :
  (∃ c, c ∈ elems (PodStatus.Conditions (Pod.Status pod_duplicate)) ∧
        PodCondition.Type' c = PodReady ∧ PodCondition.Status c = ConditionTrue) ∧
  IsPodReady (Some pod_duplicate) = Ok false.
Proof.
  split; [|reflexivity].
  exists (cond PodReady ConditionTrue t0). split; [|done].
  simpl. apply list_elem_of_lookup. by exists 1%nat.
Qed.

(** ** Availability *)

(** C1, as the code has it.  For an [int32] number of seconds [s] and a
    Ready condition whose [LastTransitionTime + s] seconds lies within the
    range of [time.Time] (beyond it [Time.Add] stops at the end of the
    range): [IsPodAvailable] is true exactly when the pod is ready and
    either [s = 0], or the Ready condition's [LastTransitionTime] is not the
    zero instant and [LastTransitionTime + s] seconds lies strictly before
    [now]; it always returns a boolean; for [s ≠ 0], at [now =
    LastTransitionTime + s] seconds exactly the result is false; and a pod
    that is not ready gets false from the first statement, the soak-time
    test not being evaluated: where the Ready condition is absent that test
    would read through a nil pointer, and [IsPodAvailable] still returns
    false. *)
Theorem IsPodAvailable_iff (pod : Pod.t) (s : Z) (now : metav1.Time) :
  int32_range s →
  (∀ c, ReadyCondition (Pod.Status pod) c →
        time_range (metav1.nanos (PodCondition.LastTransitionTime c) + s * 1000000000)) →
  (IsPodAvailable (Some pod) s now = Ok true ↔
   IsPodReady (Some pod) = Ok true ∧
   (s = 0 ∨
    ∃ c, ReadyCondition (Pod.Status pod) c ∧
         metav1.nanos (PodCondition.LastTransitionTime c) ≠ 0 ∧
         metav1.nanos (PodCondition.LastTransitionTime c) + s * 1000000000
           < metav1.nanos now)) ∧
  (IsPodAvailable (Some pod) s now = Ok true ∨
   IsPodAvailable (Some pod) s now = Ok false) ∧
  (s ≠ 0 →
   ∀ c, ReadyCondition (Pod.Status pod) c →
        metav1.nanos now
          = metav1.nanos (PodCondition.LastTransitionTime c) + s * 1000000000 →
        IsPodAvailable (Some pod) s now = Ok false) ∧
  (IsPodReady (Some pod) = Ok false → IsPodAvailable (Some pod) s now = Ok false) ∧
  (s ≠ 0 →
   GetPodReadyCondition (Pod.Status pod) = None →
   soak_time_elapsed (GetPodReadyCondition (Pod.Status pod)) s
     (time.mul s time.Second) now = Panic ∧
   IsPodAvailable (Some pod) s now = Ok false).
Proof.
  intros Hs Hrange. split_and!.
  - rewrite IsPodAvailable_unfold, IsPodReady_unfold.
    destruct (GetPodReadyCondition (Pod.Status pod)) as [c|] eqn:Hc.
    + apply GetPodReadyCondition_Some in Hc. specialize (Hrange c Hc). split.
      * intros [= [Hst Hsoak]%andb_true_iff]. split; [by rewrite Hst|].
        apply soak_formula_iff in Hsoak; [|done..].
        destruct Hsoak as [?|[??]]; [by left|]. right. by exists c.
      * intros [[= Hst] Hsoak]. rewrite Hst. simpl. f_equal.
        apply soak_formula_iff; [done..|].
        destruct Hsoak as [?|(c' & Hc' & ? & ?)]; [by left|].
        right. by rewrite (ReadyCondition_unique _ _ _ Hc Hc').
    + split; [done|]. by intros [? _].
  - rewrite IsPodAvailable_unfold.
    destruct (match _ with Some _ => _ | None => _ end); auto.
  - intros Hnz c Hc Hnow. rewrite IsPodAvailable_unfold.
    specialize (Hrange c Hc).
    apply GetPodReadyCondition_Some in Hc. rewrite Hc. f_equal.
    apply andb_false_iff. right. apply not_true_is_false.
    intros Hsoak. apply soak_formula_iff in Hsoak; [|done..].
    destruct Hsoak as [?|[??]]; [done|lia].
  - rewrite IsPodAvailable_unfold, IsPodReady_unfold.
    destruct (GetPodReadyCondition (Pod.Status pod)) as [c|]; [|done].
    by intros [= ->].
  - intros Hnz Hnone. split.
    + rewrite Hnone. unfold soak_time_elapsed.
      apply Z.eqb_neq in Hnz. by rewrite Hnz.
    + by rewrite IsPodAvailable_unfold, Hnone.
Qed.

(** Ready since [t0], thirty seconds required, sixty elapsed. *)
Lemma IsPodAvailable_iff_witness :
  int32_range 30 ∧
  (∀ c, ReadyCondition (Pod.Status pod_ready) c →
        time_range (metav1.nanos (PodCondition.LastTransitionTime c) + 30 * 1000000000)) ∧
  IsPodAvailable (Some pod_ready) 30 (metav1.at_nanos (t0 + 60 * 1000000000)) = Ok true.
Proof.
  assert (Hs : int32_range 30) by (unfold int32_range; lia).
  assert (Hrange : ∀ c, ReadyCondition (Pod.Status pod_ready) c →
            time_range (metav1.nanos (PodCondition.LastTransitionTime c)
                        + 30 * 1000000000)).
  { intros c Hc%GetPodReadyCondition_Some. injection Hc as <-.
    split; vm_compute; done. }
  split; [exact Hs|]. split; [exact Hrange|].
  apply (IsPodAvailable_iff pod_ready 30 (metav1.at_nanos (t0 + 60 * 1000000000))
           Hs Hrange).
  split; [reflexivity|]. right.
  exists (cond PodReady ConditionTrue t0). split.
  - apply GetPodReadyCondition_Some. reflexivity.
  - split; vm_compute; done.
Defined.

(** Past the end of the range the sum is not what is compared: for the pod
    ready since ten seconds before the last second, [LastTransitionTime +
    30] seconds is no instant of [time.Time]; [Add] stops at the last
    second, and one nanosecond into that second the pod is available. *)
Remark IsPodAvailable_at_the_end_of_time :
  IsPodAvailable (Some pod_ready_at_the_end) 30
    (metav1.mkTime (time.mkTime (2 ^ 63 - 1) 1)) = Ok true ∧
  metav1.nanos (metav1.mkTime (time.mkTime (2 ^ 63 - 1) 1))
    < metav1.nanos (metav1.mkTime (time.mkTime (2 ^ 63 - 11) 0)) + 30 * 1000000000.
Proof. split; vm_compute; done. Qed.

(** C1 as stated fails at [minReadySeconds = 0]: with [now] equal to
    [LastTransitionTime + 0] seconds exactly, the ready pod is available. *)
Lemma IsPodAvailable_boundary_counterexample :
  int32_range 0 ∧
  ReadyCondition (Pod.Status pod_ready) (cond PodReady ConditionTrue t0) ∧
  metav1.nanos (metav1.at_nanos t0)
    = metav1.nanos (PodCondition.LastTransitionTime (cond PodReady ConditionTrue t0))
      + 0 * 1000000000 ∧
  IsPodAvailable (Some pod_ready) 0 (metav1.at_nanos t0) = Ok true.
Proof.
  split_and!.
  - unfold int32_range. lia.
  - apply GetPodReadyCondition_Some. reflexivity.
  - reflexivity.
  - reflexivity.
Qed.

(** C2. A pod whose Ready condition is True with a zero (unset)
    [LastTransitionTime] is available for [minReadySeconds = 0] and not
    available for any [minReadySeconds > 0] (30, for one), at every [now]. *)
Theorem IsPodAvailable_zero_LastTransitionTime
    (pod : Pod.t) (c : PodCondition.t) (now : metav1.Time) :
  ReadyCondition (Pod.Status pod) c →
  PodCondition.Status c = ConditionTrue →
  metav1.IsZero (PodCondition.LastTransitionTime c) = true →
  IsPodAvailable (Some pod) 0 now = Ok true ∧
  (∀ s : Z, 0 < s → IsPodAvailable (Some pod) s now = Ok false) ∧
  IsPodAvailable (Some pod) 30 now = Ok false.
Proof.
  intros Hc%GetPodReadyCondition_Some Hst%String.eqb_eq Hzero.
  assert (Hpos : ∀ s : Z, 0 < s → IsPodAvailable (Some pod) s now = Ok false).
  { intros s Hpos. rewrite IsPodAvailable_unfold, Hc, Hst. simpl. f_equal.
    unfold soak_formula. rewrite Hzero. simpl.
    rewrite orb_false_r. apply Z.eqb_neq. lia. }
  split_and!.
  - by rewrite IsPodAvailable_unfold, Hc, Hst.
  - exact Hpos.
  - apply Hpos. lia.
Qed.

(** The pod whose Ready transition was never observed, five minutes after
    [t0]. *)
Lemma IsPodAvailable_zero_LastTransitionTime_witness :
  ReadyCondition (Pod.Status pod_ready_unset) (cond PodReady ConditionTrue 0) ∧
  PodCondition.Status (cond PodReady ConditionTrue 0) = ConditionTrue ∧
  metav1.IsZero (PodCondition.LastTransitionTime (cond PodReady ConditionTrue 0)) = true ∧
  IsPodAvailable (Some pod_ready_unset) 0 (metav1.at_nanos (t0 + 300 * 1000000000))
    = Ok true ∧
  IsPodAvailable (Some pod_ready_unset) 30 (metav1.at_nanos (t0 + 300 * 1000000000))
    = Ok false.
Proof.
  assert (Hc : ReadyCondition (Pod.Status pod_ready_unset) (cond PodReady ConditionTrue 0))
    by (apply GetPodReadyCondition_Some; reflexivity).
  destruct (IsPodAvailable_zero_LastTransitionTime pod_ready_unset
              (cond PodReady ConditionTrue 0)
              (metav1.at_nanos (t0 + 300 * 1000000000)) Hc eq_refl eq_refl)
    as (Hzero & _ & Hthirty).
  by split_and!.
Defined.

(** ** Crash loops and deletion *)

Lemma IsContainerInCrashLoopBackOff_true_iff (st : ContainerState.t) :
  IsContainerInCrashLoopBackOff st = true ↔
  ∃ w, ContainerState.Waiting st = Some w ∧
       ContainerStateWaiting.Reason w = "CrashLoopBackOff".
Proof.
  unfold IsContainerInCrashLoopBackOff, CrashLoopBackOff.
  destruct (ContainerState.Waiting st) as [w|].
  - rewrite String.eqb_eq. split; [by exists w|]. by intros (w' & [= <-] & ?).
  - split; [done|]. by intros (w' & ? & _).
Qed.

Lemma IsPodInCrashloopBackoff_range_true_iff (statuses : list ContainerStatus.t) :
  IsPodInCrashloopBackoff_range statuses = true ↔
  ∃ cs, cs ∈ statuses ∧ IsContainerInCrashLoopBackOff (ContainerStatus.State cs) = true.
Proof.
  induction statuses as [|cs rest IH]; simpl.
  - split; [done|]. intros (cs & Hin & _). by apply not_elem_of_nil in Hin.
  - destruct (IsContainerInCrashLoopBackOff (ContainerStatus.State cs)) eqn:Hcs.
    + split; [|done]. intros _. exists cs. split; [apply list_elem_of_here|done].
    + rewrite IH. split.
      * intros (cs' & Hin & Hcs'). exists cs'. split; [by apply list_elem_of_further|done].
      * intros (cs' & Hin & Hcs'). apply elem_of_cons in Hin as [->|Hin]; [congruence|].
        by exists cs'.
Qed.

(** C5. [IsPodInCrashloopBackoff] is true exactly when some entry of
    [ContainerStatuses] is Waiting with reason "CrashLoopBackOff";
    [IsContainerInCrashLoopBackOff] is false for every Running state, every
    Terminated state (every state whose Waiting pointer is nil) and every
    Waiting state with another reason; and the pod predicate is false for
    the nil and for the empty list of container statuses. *)
Theorem IsPodInCrashloopBackoff_iff (status : PodStatus.t) :
  (IsPodInCrashloopBackoff status = true ↔
   ∃ cs w, cs ∈ elems (PodStatus.ContainerStatuses status) ∧
           ContainerState.Waiting (ContainerStatus.State cs) = Some w ∧
           ContainerStateWaiting.Reason w = "CrashLoopBackOff") ∧
  (∀ st : ContainerState.t,
     is_Running st ∨ is_Terminated st ∨ ContainerState.Waiting st = None →
     IsContainerInCrashLoopBackOff st = false) ∧
  (∀ (st : ContainerState.t) (w : ContainerStateWaiting.t),
     ContainerState.Waiting st = Some w →
     ContainerStateWaiting.Reason w ≠ "CrashLoopBackOff" →
     IsContainerInCrashLoopBackOff st = false) ∧
  (∀ (st : ContainerState.t) (w : ContainerStateWaiting.t),
     ContainerState.Waiting st = Some w →
     ContainerStateWaiting.Reason w = "CrashLoopBackOff" →
     IsContainerInCrashLoopBackOff st = true) ∧
  (PodStatus.ContainerStatuses status = None ∨
   PodStatus.ContainerStatuses status = Some [] →
   IsPodInCrashloopBackoff status = false).
Proof.
  split_and!.
  - unfold IsPodInCrashloopBackoff. rewrite IsPodInCrashloopBackoff_range_true_iff.
    split.
    + intros (cs & Hin & (w & Hw & Hr)%IsContainerInCrashLoopBackOff_true_iff).
      by exists cs, w.
    + intros (cs & w & Hin & Hw & Hr). exists cs. split; [done|].
      apply IsContainerInCrashLoopBackOff_true_iff. by exists w.
  - intros st Hst. unfold IsContainerInCrashLoopBackOff.
    assert (ContainerState.Waiting st = None) as ->; [|done].
    destruct Hst as [(? & _)|[(? & _)|?]]; done.
  - intros st w Hw Hr. apply not_true_is_false.
    intros (w' & Hw' & Hr')%IsContainerInCrashLoopBackOff_true_iff. congruence.
  - intros st w Hw Hr. apply IsContainerInCrashLoopBackOff_true_iff. by exists w.
  - unfold IsPodInCrashloopBackoff. by intros [->| ->].
Qed.

(** One running container next to one in crash-loop back-off condemns the
    pod; a container waiting for its image does not. *)
Lemma IsPodInCrashloopBackoff_iff_witness :
  IsPodInCrashloopBackoff (Pod.Status pod_crashing) = true ∧
  IsContainerInCrashLoopBackOff (ContainerStatus.State running) = false ∧
  IsContainerInCrashLoopBackOff (ContainerStatus.State (waiting "ImagePullBackOff"))
    = false ∧
  IsPodInCrashloopBackoff (Pod.Status (pod_with None)) = false.
Proof.
  destruct (IsPodInCrashloopBackoff_iff (Pod.Status pod_crashing))
    as ([_ Hany] & Hrun & Hwait & _).
  destruct (IsPodInCrashloopBackoff_iff (Pod.Status (pod_with None)))
    as (_ & _ & _ & _ & Hnil).
  split; [|split; [|split]].
  - apply Hany. exists (waiting CrashLoopBackOff), (ContainerStateWaiting.mk CrashLoopBackOff "").
    split; [|split; reflexivity].
    apply list_elem_of_further, list_elem_of_here.
  - apply Hrun. left. unfold is_Running. simpl. eauto.
  - apply (Hwait (ContainerStatus.State (waiting "ImagePullBackOff"))
                 (ContainerStateWaiting.mk "ImagePullBackOff" ""));
      [reflexivity|discriminate].
  - apply Hnil. by left.
Defined.

(** C4. [ShouldDeletePod] is true exactly when the pod's
    [DeletionTimestamp] is nil, that is [IsPodDeleted] is false, and
    [IsPodInCrashloopBackoff] holds of its status; with a
    [DeletionTimestamp] set it is false whatever the containers do. *)
Theorem ShouldDeletePod_iff (pod : Pod.t) :
  (ShouldDeletePod (Some pod) = Ok true ↔
   Pod.DeletionTimestamp pod = None ∧ IsPodInCrashloopBackoff (Pod.Status pod) = true) ∧
  (IsPodDeleted (Some pod) = Ok false ↔ Pod.DeletionTimestamp pod = None) ∧
  (IsPodDeleted (Some pod) = Ok true ↔ is_Some (Pod.DeletionTimestamp pod)) ∧
  (∀ t : metav1.Time,
     Pod.DeletionTimestamp pod = Some t → ShouldDeletePod (Some pod) = Ok false) ∧
  (ShouldDeletePod (Some pod) = Ok true ∨ ShouldDeletePod (Some pod) = Ok false).
Proof.
  unfold ShouldDeletePod, IsPodDeleted. simpl.
  split; [|split; [|split; [|split]]].
  - destruct (Pod.DeletionTimestamp pod) as [t|]; simpl.
    + split; [done|]. by intros [? _].
    + split; [by intros [= ->]|]. by intros [_ ->].
  - by destruct (Pod.DeletionTimestamp pod).
  - destruct (Pod.DeletionTimestamp pod) as [t|]; simpl.
    + split; [by exists t|done].
    + split; [done|]. by intros [? ?].
  - by intros t ->.
  - destruct (Pod.DeletionTimestamp pod) as [t|]; simpl; [by right|].
    destruct (IsPodInCrashloopBackoff (Pod.Status pod)); auto.
Qed.

(** The crash-looping pod is deleted; the same pod already marked for
    deletion is left alone. *)
Lemma ShouldDeletePod_iff_witness :
  ShouldDeletePod (Some pod_crashing) = Ok true ∧
  ShouldDeletePod (Some pod_crashing_deleted) = Ok false.
Proof.
  split.
  - apply (ShouldDeletePod_iff pod_crashing). split; reflexivity.
  - destruct (ShouldDeletePod_iff pod_crashing_deleted) as (_ & _ & _ & Hset & _).
    apply (Hset (metav1.at_nanos t0)). reflexivity.
Defined.

(** ** Endpoints *)

(** C7. [IsReadyEndpointPresentInSubsets] is true exactly when some subset
    of the list has a non-empty [Addresses]; it is false for the nil and the
    empty list and true for a list of one subset with one address. *)
Theorem IsReadyEndpointPresentInSubsets_iff (subsets : slice EndpointSubset.t) :
  (IsReadyEndpointPresentInSubsets subsets = true ↔
   ∃ subset, subset ∈ elems subsets ∧ elems (EndpointSubset.Addresses subset) ≠ []) ∧
  IsReadyEndpointPresentInSubsets None = false ∧
  IsReadyEndpointPresentInSubsets (Some []) = false ∧
  (∀ a : EndpointAddress.t,
     IsReadyEndpointPresentInSubsets (Some [EndpointSubset.mk (Some [a])]) = true).
Proof.
  split_and!; try done.
  unfold IsReadyEndpointPresentInSubsets.
  induction (elems subsets) as [|subset rest IH]; simpl.
  - split; [done|]. intros (x & Hin & _). by apply not_elem_of_nil in Hin.
  - unfold len at 1.
    destruct (elems (EndpointSubset.Addresses subset)) as [|a l] eqn:Haddr; simpl.
    + rewrite IH. split.
      * intros (x & Hin & Hx). exists x. split; [by apply list_elem_of_further|done].
      * intros (x & Hin & Hx). apply elem_of_cons in Hin as [->|Hin]; [congruence|].
        by exists x.
    + split; [|done]. intros _. exists subset.
      split; [apply list_elem_of_here|]. by rewrite Haddr.
Qed.

(** ** The configuration loader *)

(** C8. Whatever the file system and the decoder are: when the file cannot
    be read, or when its content does not decode, [LoadServiceDependants]
    returns a nil pointer together with the very error [ioutil.ReadFile],
    respectively [yaml.Unmarshal], returned; an error never comes with a
    value, whatever the decoder left behind the pointer, and is always one
    of those two errors; and when both steps succeed the decoded value is
    returned with a nil error. *)
Theorem LoadServiceDependants_errors
    (ServiceDependants error : Type) (zero : ServiceDependants)
    (ioutil_ReadFile : string → slice Byte.byte * option error)
    (yaml_Unmarshal : slice Byte.byte → ServiceDependants → ServiceDependants * option error)
    (file : string) :
  (∀ data e,
     ioutil_ReadFile file = (data, Some e) →
     LoadServiceDependants ServiceDependants error zero ioutil_ReadFile yaml_Unmarshal file
       = (None, Some e)) ∧
  (∀ data partial e,
     ioutil_ReadFile file = (data, None) →
     yaml_Unmarshal data zero = (partial, Some e) →
     LoadServiceDependants ServiceDependants error zero ioutil_ReadFile yaml_Unmarshal file
       = (None, Some e)) ∧
  (∀ p e,
     LoadServiceDependants ServiceDependants error zero ioutil_ReadFile yaml_Unmarshal file
       = (p, Some e) →
     p = None ∧
     (snd (ioutil_ReadFile file) = Some e ∨
      (snd (ioutil_ReadFile file) = None ∧
       snd (yaml_Unmarshal (fst (ioutil_ReadFile file)) zero) = Some e))) ∧
  (∀ data v,
     ioutil_ReadFile file = (data, None) →
     yaml_Unmarshal data zero = (v, None) →
     LoadServiceDependants ServiceDependants error zero ioutil_ReadFile yaml_Unmarshal file
       = (Some v, None)).
Proof.
  unfold LoadServiceDependants, decodeConfigFile.
  split_and!.
  - by intros data e ->.
  - by intros data partial e -> ->.
  - intros p e. destruct (ioutil_ReadFile file) as [data [e'|]]; simpl.
    + intros [= <- <-]. split; [done|]. by left.
    + destruct (yaml_Unmarshal data zero) as [v [e'|]]; simpl; [|done].
      intros [= <- <-]. split; [done|]. by right.
  - by intros data v -> ->.
Qed.

(** A missing file gives the read error, and the file that starts with a
    tab gives the decoder's error; both come with a nil pointer. *)
Lemma LoadServiceDependants_errors_witness :
  LoadServiceDependants nat string 0%nat example_ReadFile example_Unmarshal
    "/etc/missing.yaml"
    = (None, Some "open: no such file or directory") ∧
  LoadServiceDependants nat string 0%nat example_ReadFile example_Unmarshal
    "/etc/dependants.yaml"
    = (None, Some "yaml: found character that cannot start any token").
Proof.
  split.
  - apply (LoadServiceDependants_errors nat string 0%nat example_ReadFile
             example_Unmarshal "/etc/missing.yaml") with (data := None).
    reflexivity.
  - apply (LoadServiceDependants_errors nat string 0%nat example_ReadFile
             example_Unmarshal "/etc/dependants.yaml")
      with (data := Some [Byte.x09; Byte.x61]) (partial := 0%nat);
      reflexivity.
Defined.

(** ** Totality *)

(** C9. On a pod that exists, every predicate returns a boolean and never
    panics; a nil [Conditions] list means not ready and not available, a nil
    [ContainerStatuses] list means not crash-looping and not to be deleted,
    and a nil list of subsets, or subsets whose [Addresses] are nil, mean no
    ready endpoint.  The lookups and the predicates on statuses, container
    states and subsets are total functions of the embedding as they stand,
    the source having no partial operation in them. *)
Theorem predicates_total (pod : Pod.t) (s : Z) (now : metav1.Time) :
  (∃ b, IsPodReady (Some pod) = Ok b) ∧
  (∃ b, IsPodAvailable (Some pod) s now = Ok b) ∧
  (∃ b, IsPodDeleted (Some pod) = Ok b) ∧
  (∃ b, ShouldDeletePod (Some pod) = Ok b) ∧
  (PodStatus.Conditions (Pod.Status pod) = None →
   GetPodReadyCondition (Pod.Status pod) = None ∧
   IsPodReadyConditionTrue (Pod.Status pod) = false ∧
   IsPodReady (Some pod) = Ok false ∧
   IsPodAvailable (Some pod) s now = Ok false) ∧
  (PodStatus.ContainerStatuses (Pod.Status pod) = None →
   IsPodInCrashloopBackoff (Pod.Status pod) = false ∧
   ShouldDeletePod (Some pod) = Ok false) ∧
  IsReadyEndpointPresentInSubsets None = false ∧
  (∀ subsets : list EndpointSubset.t,
     Forall (λ subset, EndpointSubset.Addresses subset = None) subsets →
     IsReadyEndpointPresentInSubsets (Some subsets) = false).
Proof.
  split_and!.
  - rewrite IsPodReady_unfold. eauto.
  - rewrite IsPodAvailable_unfold. eauto.
  - unfold IsPodDeleted. simpl. destruct (Pod.DeletionTimestamp pod); eauto.
  - unfold ShouldDeletePod, IsPodDeleted. simpl.
    destruct (Pod.DeletionTimestamp pod); simpl; eauto.
  - intros Hnil.
    assert (Hc : GetPodReadyCondition (Pod.Status pod) = None)
      by (by rewrite GetPodReadyCondition_find, Hnil).
    split_and!; [done|..].
    + unfold IsPodReadyConditionTrue. by rewrite Hc.
    + by rewrite IsPodReady_unfold, Hc.
    + by rewrite IsPodAvailable_unfold, Hc.
  - intros Hnil.
    assert (Hcrash : IsPodInCrashloopBackoff (Pod.Status pod) = false)
      by (unfold IsPodInCrashloopBackoff; by rewrite Hnil).
    split; [done|].
    unfold ShouldDeletePod, IsPodDeleted. simpl.
    destruct (Pod.DeletionTimestamp pod); simpl; [done|]. by rewrite Hcrash.
  - reflexivity.
  - intros subsets Hall. unfold IsReadyEndpointPresentInSubsets. simpl.
    induction Hall as [|subset rest Hsub _ IH]; simpl; [done|].
    by rewrite Hsub.
Qed.

(** The pod with every list nil, at any time: no panic, and every answer is
    the negative one. *)
Lemma predicates_total_witness :
  IsPodReady (Some (pod_with None)) = Ok false ∧
  IsPodAvailable (Some (pod_with None)) 30 (metav1.at_nanos t0) = Ok false ∧
  ShouldDeletePod (Some (pod_with None)) = Ok false ∧
  IsReadyEndpointPresentInSubsets (Some [EndpointSubset.mk None]) = false.
Proof.
  destruct (predicates_total (pod_with None) 30 (metav1.at_nanos t0))
    as (_ & _ & _ & _ & Hcond & Hstat & _ & Hsub).
  destruct (Hcond eq_refl) as (_ & _ & Hready & Havail).
  destruct (Hstat eq_refl) as (_ & Hdelete).
  split; [exact Hready|]. split; [exact Havail|]. split; [exact Hdelete|].
  apply Hsub. repeat constructor.
Defined.

(** Where the well-formedness ends: the predicates taking a pod read
    through the pointer, and a nil pod makes them panic. *)
Lemma nil_pod_panics (s : Z) (now : metav1.Time) :
  IsPodReady None = Panic ∧ IsPodAvailable None s now = Panic ∧
  IsPodDeleted None = Panic ∧ ShouldDeletePod None = Panic.
Proof. by split_and!. Qed.

(** * Further properties of the code *)

(** ** The soak window *)

Lemma bool_eq_true_iff (a b : bool) : (a = true ↔ b = true) → a = b.
Proof.
  destruct a, b; intros [H1 H2]; try done.
  - symmetry. by apply H1.
  - by apply H2.
Qed.

Lemma soak_formula_mono_now (c : PodCondition.t) (s : Z) (now now' : metav1.Time) :
  metav1.nanos now ≤ metav1.nanos now' →
  soak_formula c s now = true → soak_formula c s now' = true.
Proof.
  unfold soak_formula, metav1.nanos.
  rewrite !Before_nanos, !orb_true_iff, !andb_true_iff, !Z.ltb_lt.
  intros Hle [?|[? ?]]; [by left|]. right. split; [done|lia].
Qed.

(** X1. Availability is monotone in time: a pod available at [now] is
    available at every later [now'], the pod unchanged. *)
Theorem IsPodAvailable_monotone_now (pod : Pod.t) (s : Z) (now now' : metav1.Time) :
  metav1.nanos now ≤ metav1.nanos now' →
  IsPodAvailable (Some pod) s now = Ok true →
  IsPodAvailable (Some pod) s now' = Ok true.
Proof.
  intros Hle. rewrite !IsPodAvailable_unfold.
  destruct (GetPodReadyCondition (Pod.Status pod)) as [c|]; [|done].
  intros [= [Hst Hsoak]%andb_true_iff]. f_equal.
  apply andb_true_iff. split; [done|]. by eapply soak_formula_mono_now.
Qed.

Lemma IsPodAvailable_monotone_now_witness :
  metav1.nanos (metav1.at_nanos (t0 + 60 * 1000000000))
    ≤ metav1.nanos (metav1.at_nanos (t0 + 3600 * 1000000000)) ∧
  IsPodAvailable (Some pod_ready) 30 (metav1.at_nanos (t0 + 60 * 1000000000)) = Ok true ∧
  IsPodAvailable (Some pod_ready) 30 (metav1.at_nanos (t0 + 3600 * 1000000000)) = Ok true.
Proof.
  assert (Hle : metav1.nanos (metav1.at_nanos (t0 + 60 * 1000000000))
                ≤ metav1.nanos (metav1.at_nanos (t0 + 3600 * 1000000000)))
    by (vm_compute; discriminate).
  split; [exact Hle|]. split; [reflexivity|].
  exact (IsPodAvailable_monotone_now pod_ready 30
           (metav1.at_nanos (t0 + 60 * 1000000000))
           (metav1.at_nanos (t0 + 3600 * 1000000000)) Hle eq_refl).
Defined.

(** X2. Availability is antitone in the soak time: a pod available under
    [minReadySeconds = s] is available under every [s'] with
    [0 ≤ s' ≤ s]. *)
Theorem IsPodAvailable_antitone_minReadySeconds
    (pod : Pod.t) (s s' : Z) (now : metav1.Time) :
  int32_range s → 0 ≤ s' ≤ s →
  IsPodAvailable (Some pod) s now = Ok true →
  IsPodAvailable (Some pod) s' now = Ok true.
Proof.
  intros Hs Hs'. rewrite !IsPodAvailable_unfold.
  assert (Hr' : int32_range s') by (unfold int32_range in *; lia).
  destruct (GetPodReadyCondition (Pod.Status pod)) as [c|]; [|done].
  intros [= [Hst Hsoak]%andb_true_iff]. f_equal.
  apply andb_true_iff. split; [done|].
  destruct (decide (s' = 0)) as [->|Hne']; [done|].
  unfold soak_formula, metav1.Add in *.
  apply orb_true_iff in Hsoak as [Hzero%Z.eqb_eq|[Hnz Hlt]%andb_true_iff]; [lia|].
  apply orb_true_iff. right. apply andb_true_iff. split; [done|].
  rewrite Before_nanos, mul_Second_exact in * by done.
  apply Z.ltb_lt in Hlt. apply Z.ltb_lt.
  pose proof (Add_seconds_mono
                (metav1.Time_ (PodCondition.LastTransitionTime c)) s s') as Hmono.
  unfold int32_range in Hs. lia.
Qed.

Lemma IsPodAvailable_antitone_minReadySeconds_witness :
  int32_range 90 ∧ 0 ≤ 30 ≤ 90 ∧
  IsPodAvailable (Some pod_ready) 90 (metav1.at_nanos (t0 + 120 * 1000000000)) = Ok true ∧
  IsPodAvailable (Some pod_ready) 30 (metav1.at_nanos (t0 + 120 * 1000000000)) = Ok true.
Proof.
  assert (Hs : int32_range 90) by (unfold int32_range; lia).
  assert (Hs' : 0 ≤ 30 ≤ 90) by lia.
  split; [exact Hs|]. split; [exact Hs'|]. split; [reflexivity|].
  exact (IsPodAvailable_antitone_minReadySeconds pod_ready 90 30
           (metav1.at_nanos (t0 + 120 * 1000000000)) Hs Hs' eq_refl).
Defined.



(** Without that range the first part fails: at the first second
    [time.Time] can hold but one, going thirty seconds back stops at the
    same second, which is not before [now]. *)
Remark IsPodAvailable_at_the_start_of_time :
  IsPodAvailable
    (Some (pod_with (Some [PodCondition.mk PodReady ConditionTrue
                             (metav1.mkTime (time.mkTime (- (2 ^ 63 - 1)) 0))])))
    (-30) (metav1.mkTime (time.mkTime (- (2 ^ 63 - 1)) 0)) = Ok false.
Proof. vm_compute. reflexivity. Qed.

(** X4. The conversion [time.Duration(minReadySeconds) * time.Second] never
    overflows: for every [int32] it is exactly the number of nanoseconds,
    within the range of [int64], and it keeps the order of the seconds. *)
Theorem minReadySecondsDuration_exact (s1 s2 : Z) :
  int32_range s1 → int32_range s2 →
  time.mul s1 time.Second = s1 * 1000000000 ∧
  - 2 ^ 63 < time.mul s1 time.Second < 2 ^ 63 ∧
  (s1 < s2 ↔ time.mul s1 time.Second < time.mul s2 time.Second) ∧
  (time.mul s1 time.Second = 0 ↔ s1 = 0).
Proof.
  intros H1 H2. rewrite !mul_Second_exact by done.
  unfold int32_range in *. split_and!; lia.
Qed.

Lemma minReadySecondsDuration_exact_witness :
  int32_range (2 ^ 31 - 1) ∧ int32_range (- 2 ^ 31) ∧
  time.mul (2 ^ 31 - 1) time.Second = 2147483647000000000 ∧
  time.mul (- 2 ^ 31) time.Second < time.mul (2 ^ 31 - 1) time.Second.
Proof.
  assert (H1 : int32_range (2 ^ 31 - 1)) by (unfold int32_range; lia).
  assert (H2 : int32_range (- 2 ^ 31)) by (unfold int32_range; lia).
  split; [exact H1|]. split; [exact H2|]. split.
  - exact (proj1 (minReadySecondsDuration_exact _ _ H1 H2)).
  - destruct (minReadySecondsDuration_exact _ _ H2 H1) as (_ & _ & [Hlt _] & _).
    apply Hlt. reflexivity.
Defined.

(** ** The index returned by the lookup *)

(** X5. Index and pointer of [GetPodConditionFromList] always agree:
    either the index is [-1] and the pointer nil, or the index is within
    the bounds of the list and the pointer is to the entry at that index,
    an entry of the requested type. *)
Theorem GetPodConditionFromList_index_valid
    (conditions : slice PodCondition.t) (ty : PodConditionType) :
  (fst (GetPodConditionFromList conditions ty) = -1 ∧
   snd (GetPodConditionFromList conditions ty) = None) ∨
  (0 ≤ fst (GetPodConditionFromList conditions ty) < len conditions ∧
   ∃ c, snd (GetPodConditionFromList conditions ty) = Some c ∧
        elems conditions !! Z.to_nat (fst (GetPodConditionFromList conditions ty)) = Some c ∧
        PodCondition.Type' c = ty).
Proof.
  destruct conditions as [l|]; [|by left].
  rewrite GetPodConditionFromList_find.
  destruct (list_find (has_type ty) l) as [[k c]|] eqn:Hfind; [|by left].
  apply list_find_Some in Hfind as (Hk & Hty & _). right. simpl. split.
  - apply lookup_lt_Some in Hk. unfold len. simpl. lia.
  - exists c. by rewrite Nat2Z.id.
Qed.

Lemma GetPodConditionFromList_found (l : list PodCondition.t) ty (i : Z) c :
  GetPodConditionFromList (Some l) ty = (i, Some c) ↔
  ∃ k : nat, i = Z.of_nat k ∧ list_find (has_type ty) l = Some (k, c).
Proof.
  rewrite GetPodConditionFromList_find.
  destruct (list_find (has_type ty) l) as [[k c']|].
  - split.
    + intros [= <- <-]. by exists k.
    + intros (k' & -> & [= <- <-]). done.
  - split; [done|]. by intros (k' & _ & ?).
Qed.

Lemma GetPodConditionFromList_not_found (l : list PodCondition.t) ty :
  snd (GetPodConditionFromList (Some l) ty) = None ↔
  list_find (has_type ty) l = None.
Proof.
  rewrite GetPodConditionFromList_find.
  by destruct (list_find (has_type ty) l) as [[k c']|].
Qed.

(** X6. Lookup in a concatenation: a match in the first list is the result,
    unchanged; with no match there, the result is the one of the second
    list, its index shifted by the length of the first. *)
Theorem GetPodConditionFromList_app (l1 l2 : list PodCondition.t) (ty : PodConditionType) :
  (∀ i c, GetPodConditionFromList (Some l1) ty = (i, Some c) →
          GetPodConditionFromList (Some (l1 ++ l2)) ty = (i, Some c)) ∧
  (snd (GetPodConditionFromList (Some l1) ty) = None →
   (∀ i c, GetPodConditionFromList (Some l2) ty = (i, Some c) →
           GetPodConditionFromList (Some (l1 ++ l2)) ty
             = (Z.of_nat (length l1) + i, Some c)) ∧
   (snd (GetPodConditionFromList (Some l2) ty) = None →
    GetPodConditionFromList (Some (l1 ++ l2)) ty = (-1, None))).
Proof.
  split.
  - intros i c (k & -> & Hfind)%GetPodConditionFromList_found.
    apply GetPodConditionFromList_found. exists k. split; [done|].
    by apply list_find_app_l.
  - intros Hnone%GetPodConditionFromList_not_found. split.
    + intros i c (k & -> & Hfind)%GetPodConditionFromList_found.
      apply GetPodConditionFromList_found. exists (k + length l1)%nat.
      split; [lia|]. rewrite list_find_app_r by done. by rewrite Hfind.
    + intros Hnone2%GetPodConditionFromList_not_found.
      rewrite GetPodConditionFromList_find, list_find_app_r by done.
      by rewrite Hnone2.
Qed.

Lemma GetPodConditionFromList_app_witness :
  GetPodConditionFromList
    (Some ([cond "Initialized" ConditionTrue t0; cond "PodScheduled" ConditionTrue t0]
           ++ [cond "ContainersReady" ConditionTrue t0; cond PodReady ConditionTrue t0]))
    PodReady
  = (Z.of_nat 2 + 1, Some (cond PodReady ConditionTrue t0)).
Proof.
  destruct (GetPodConditionFromList_app
              [cond "Initialized" ConditionTrue t0; cond "PodScheduled" ConditionTrue t0]
              [cond "ContainersReady" ConditionTrue t0; cond PodReady ConditionTrue t0]
              PodReady) as [_ Hsecond].
  destruct (Hsecond eq_refl) as [Hshift _].
  apply Hshift. reflexivity.
Defined.

(** X7. The index returned serves an update in place: writing a condition
    of the same type at the index returned makes the lookup return that
    condition at the same index, and leaves the lookup of every other type
    as it was. *)
Theorem GetPodConditionFromList_update
    (l : list PodCondition.t) (ty : PodConditionType) (i : Z)
    (c c' : PodCondition.t) :
  GetPodConditionFromList (Some l) ty = (i, Some c) →
  PodCondition.Type' c' = ty →
  GetPodConditionFromList (Some (<[Z.to_nat i := c']> l)) ty = (i, Some c') ∧
  ∀ ty' : PodConditionType, ty' ≠ ty →
    GetPodConditionFromList (Some (<[Z.to_nat i := c']> l)) ty'
      = GetPodConditionFromList (Some l) ty'.
Proof.
  intros (k & -> & (Hk & Hty & Hmin)%list_find_Some)%GetPodConditionFromList_found Hc'.
  rewrite Nat2Z.id. split.
  - apply GetPodConditionFromList_found. exists k. split; [done|].
    apply list_find_Some. split_and!.
    + apply list_lookup_insert_eq. by eapply lookup_lt_Some.
    + done.
    + intros j y Hj Hlt. rewrite list_lookup_insert_ne in Hj by lia. by eapply Hmin.
  - intros ty' Hne. rewrite !GetPodConditionFromList_find.
    rewrite (list_find_same_places ty' (<[k:=c']> l) l); [done|].
    intros j y. destruct (decide (j = k)) as [->|Hjk].
    + rewrite list_lookup_insert_eq by (by eapply lookup_lt_Some).
      rewrite Hk. unfold has_type in *. split; intros [[= <-] Hy]; congruence.
    + by rewrite list_lookup_insert_ne.
Qed.

Lemma GetPodConditionFromList_update_witness :
  GetPodConditionFromList
    (Some [cond "Initialized" ConditionTrue t0; cond PodReady ConditionFalse t0]) PodReady
    = (1, Some (cond PodReady ConditionFalse t0)) ∧
  PodCondition.Type' (cond PodReady ConditionTrue (t0 + 1)) = PodReady ∧
  GetPodConditionFromList
    (Some (<[Z.to_nat 1 := cond PodReady ConditionTrue (t0 + 1)]>
             [cond "Initialized" ConditionTrue t0; cond PodReady ConditionFalse t0]))
    PodReady
    = (1, Some (cond PodReady ConditionTrue (t0 + 1))).
Proof.
  split; [reflexivity|]. split; [reflexivity|].
  exact (proj1 (GetPodConditionFromList_update
                  [cond "Initialized" ConditionTrue t0; cond PodReady ConditionFalse t0]
                  PodReady 1 (cond PodReady ConditionFalse t0)
                  (cond PodReady ConditionTrue (t0 + 1)) eq_refl eq_refl)).
Defined.

(** ** What readiness and availability look at *)

Lemma GetPodReadyCondition_head_filter (status : PodStatus.t) :
  GetPodReadyCondition status
  = head (filter (has_type PodReady) (elems (PodStatus.Conditions status))).
Proof.
  rewrite GetPodReadyCondition_find.
  destruct (PodStatus.Conditions status) as [l|]; [|done].
  apply list_find_head_filter.
Qed.

(** X8. Readiness and availability look at the first Ready condition and at
    nothing else: two pods whose condition lists have the same first entry
    of type Ready (or none) get the same answers, whatever their conditions
    of other types, their later Ready entries, their container statuses
    and their deletion timestamps are. *)
Theorem IsPodAvailable_first_Ready_only (pod1 pod2 : Pod.t) :
  head (filter (has_type PodReady) (elems (PodStatus.Conditions (Pod.Status pod1))))
  = head (filter (has_type PodReady) (elems (PodStatus.Conditions (Pod.Status pod2)))) →
  IsPodReady (Some pod1) = IsPodReady (Some pod2) ∧
  ∀ (s : Z) (now : metav1.Time),
    IsPodAvailable (Some pod1) s now = IsPodAvailable (Some pod2) s now.
Proof.
  rewrite <- !GetPodReadyCondition_head_filter. intros Heq. split.
  - by rewrite !IsPodReady_unfold, Heq.
  - intros s now. by rewrite !IsPodAvailable_unfold, Heq.
Qed.

Lemma IsPodAvailable_first_Ready_only_witness :
  IsPodReady (Some pod_ready) = IsPodReady (Some pod_ready_then_stale) ∧
  ∀ (s : Z) (now : metav1.Time),
    IsPodAvailable (Some pod_ready) s now
    = IsPodAvailable (Some pod_ready_then_stale) s now.
Proof.
  exact (IsPodAvailable_first_Ready_only pod_ready pod_ready_then_stale eq_refl).
Defined.

(** ** Order and concatenation of the lists the loops range over *)

Lemma IsPodInCrashloopBackoff_range_app (l1 l2 : list ContainerStatus.t) :
  IsPodInCrashloopBackoff_range (l1 ++ l2)
  = IsPodInCrashloopBackoff_range l1 || IsPodInCrashloopBackoff_range l2.
Proof.
  induction l1 as [|cs l1 IH]; simpl; [done|].
  by destruct (IsContainerInCrashLoopBackOff (ContainerStatus.State cs)).
Qed.

(** X9. The early return of [IsPodInCrashloopBackoff] does not make the
    answer depend on the order of the containers: the answer for a
    concatenation is the disjunction of the answers, it is unchanged by any
    permutation of the container statuses, and adding containers never turns
    a crash-looping pod into a healthy one.  [ShouldDeletePod] is
    order-independent likewise. *)
Theorem IsPodInCrashloopBackoff_order_independent
    (conditions : slice PodCondition.t) (l1 l2 : list ContainerStatus.t) :
  IsPodInCrashloopBackoff (PodStatus.mk conditions (Some (l1 ++ l2)))
  = IsPodInCrashloopBackoff (PodStatus.mk conditions (Some l1))
    || IsPodInCrashloopBackoff (PodStatus.mk conditions (Some l2)) ∧
  (l1 ⊆ l2 →
   IsPodInCrashloopBackoff (PodStatus.mk conditions (Some l1)) = true →
   IsPodInCrashloopBackoff (PodStatus.mk conditions (Some l2)) = true) ∧
  (l1 ≡ₚ l2 →
   IsPodInCrashloopBackoff (PodStatus.mk conditions (Some l1))
   = IsPodInCrashloopBackoff (PodStatus.mk conditions (Some l2)) ∧
   ∀ deletion : ptr metav1.Time,
     ShouldDeletePod (Some (Pod.mk deletion (PodStatus.mk conditions (Some l1))))
     = ShouldDeletePod (Some (Pod.mk deletion (PodStatus.mk conditions (Some l2))))).
Proof.
  unfold IsPodInCrashloopBackoff. simpl.
  assert (Hmono : ∀ la lb : list ContainerStatus.t, la ⊆ lb →
            IsPodInCrashloopBackoff_range la = true →
            IsPodInCrashloopBackoff_range lb = true).
  { intros la lb Hsub (cs & Hin & Hcs)%IsPodInCrashloopBackoff_range_true_iff.
    apply IsPodInCrashloopBackoff_range_true_iff. exists cs. split; [by apply Hsub|done]. }
  split_and!.
  - apply IsPodInCrashloopBackoff_range_app.
  - apply Hmono.
  - intros Hperm.
    assert (Heq : IsPodInCrashloopBackoff_range l1 = IsPodInCrashloopBackoff_range l2).
    { apply bool_eq_true_iff. split; apply Hmono; intros x; by rewrite Hperm. }
    split; [done|]. intros deletion.
    unfold ShouldDeletePod, IsPodDeleted, IsPodInCrashloopBackoff. simpl.
    destruct deletion; simpl; [done|]. by rewrite Heq.
Qed.

Lemma IsPodInCrashloopBackoff_order_independent_witness :
  IsPodInCrashloopBackoff (PodStatus.mk None (Some [running; waiting CrashLoopBackOff]))
  = IsPodInCrashloopBackoff (PodStatus.mk None (Some [waiting CrashLoopBackOff; running])).
Proof.
  destruct (IsPodInCrashloopBackoff_order_independent None
              [running; waiting CrashLoopBackOff] [waiting CrashLoopBackOff; running])
    as (_ & _ & Hperm).
  apply Hperm. apply Permutation_swap.
Defined.

Lemma IsReadyEndpointPresentInSubsets_range_app (l1 l2 : list EndpointSubset.t) :
  IsReadyEndpointPresentInSubsets_range (l1 ++ l2)
  = IsReadyEndpointPresentInSubsets_range l1 || IsReadyEndpointPresentInSubsets_range l2.
Proof.
  induction l1 as [|subset l1 IH]; simpl; [done|].
  by destruct (negb (len (EndpointSubset.Addresses subset) =? 0)).
Qed.

Lemma IsReadyEndpointPresentInSubsets_range_addresses (l : list EndpointSubset.t) :
  IsReadyEndpointPresentInSubsets_range l = true ↔ all_addresses (Some l) ≠ [].
Proof.
  unfold all_addresses. simpl. induction l as [|subset l IH]; simpl; [done|].
  unfold len at 1.
  destruct (elems (EndpointSubset.Addresses subset)) as [|a addrs]; simpl; [done|].
  split; done.
Qed.

(** X10. [IsReadyEndpointPresentInSubsets] answers whether the subsets hold
    any address at all: it is true exactly when the concatenation of all
    the [Addresses] is non-empty, that is when the total number of addresses
    is positive; hence the answer for a concatenation of subset lists is the
    disjunction of the answers, and it does not depend on the order of the
    subsets. *)
Theorem IsReadyEndpointPresentInSubsets_any_address (subsets : slice EndpointSubset.t) :
  (IsReadyEndpointPresentInSubsets subsets = true ↔ all_addresses subsets ≠ []) ∧
  (IsReadyEndpointPresentInSubsets subsets = true ↔
   (0 < length (all_addresses subsets))%nat) ∧
  (∀ l1 l2 : list EndpointSubset.t,
     IsReadyEndpointPresentInSubsets (Some (l1 ++ l2))
     = IsReadyEndpointPresentInSubsets (Some l1)
       || IsReadyEndpointPresentInSubsets (Some l2)) ∧
  (∀ l : list EndpointSubset.t,
     elems subsets ≡ₚ l →
     IsReadyEndpointPresentInSubsets subsets = IsReadyEndpointPresentInSubsets (Some l)).
Proof.
  assert (Hiff : ∀ s : slice EndpointSubset.t,
            IsReadyEndpointPresentInSubsets s = true ↔ all_addresses s ≠ []).
  { intros [l|]; [apply IsReadyEndpointPresentInSubsets_range_addresses|done]. }
  split_and!.
  - apply Hiff.
  - rewrite Hiff. destruct (all_addresses subsets); simpl; split; try done; lia.
  - intros l1 l2. apply IsReadyEndpointPresentInSubsets_range_app.
  - intros l Hperm. apply bool_eq_true_iff. rewrite !Hiff.
    unfold all_addresses. simpl.
    assert (Hnil : ∀ la lb : list (list EndpointAddress.t),
              la ≡ₚ lb → concat la = [] → concat lb = []).
    { intros la lb Hp Hc. apply length_zero_iff_nil.
      apply length_zero_iff_nil in Hc. by rewrite <- Hp. }
    split; intros Hne Hc; apply Hne.
    + eapply Hnil; [|exact Hc]. by rewrite Hperm.
    + eapply Hnil; [|exact Hc]. by rewrite Hperm.
Qed.

Lemma IsReadyEndpointPresentInSubsets_any_address_witness :
  IsReadyEndpointPresentInSubsets
    (Some [EndpointSubset.mk None; EndpointSubset.mk (Some [EndpointAddress.mk "10.0.0.7"])])
  = IsReadyEndpointPresentInSubsets
      (Some [EndpointSubset.mk (Some [EndpointAddress.mk "10.0.0.7"]); EndpointSubset.mk None]).
Proof.
  destruct (IsReadyEndpointPresentInSubsets_any_address
              (Some [EndpointSubset.mk None;
                     EndpointSubset.mk (Some [EndpointAddress.mk "10.0.0.7"])]))
    as (_ & _ & _ & Hperm).
  apply Hperm. apply Permutation_swap.
Defined.

(** ** The two results of the loader *)

(** X11. [decodeConfigFile] and [LoadServiceDependants] return exactly one
    of a value and an error, never both and never neither; a loaded value
    is the one the decoder wrote, starting from the zero value, on the
    bytes that were read; and after a successful read the loader's result
    is the decoder's. *)
Theorem LoadServiceDependants_value_xor_error
    (ServiceDependants error : Type) (zero : ServiceDependants)
    (ioutil_ReadFile : string → slice Byte.byte * option error)
    (yaml_Unmarshal : slice Byte.byte → ServiceDependants → ServiceDependants * option error)
    (file : string) (data : slice Byte.byte) :
  ((∃ v, decodeConfigFile ServiceDependants error zero yaml_Unmarshal data = (Some v, None)) ∨
   (∃ e, decodeConfigFile ServiceDependants error zero yaml_Unmarshal data = (None, Some e))) ∧
  ((∃ v, LoadServiceDependants ServiceDependants error zero ioutil_ReadFile yaml_Unmarshal file
           = (Some v, None)) ∨
   (∃ e, LoadServiceDependants ServiceDependants error zero ioutil_ReadFile yaml_Unmarshal file
           = (None, Some e))) ∧
  (∀ v r,
     LoadServiceDependants ServiceDependants error zero ioutil_ReadFile yaml_Unmarshal file
       = (Some v, r) →
     r = None ∧ snd (ioutil_ReadFile file) = None ∧
     yaml_Unmarshal (fst (ioutil_ReadFile file)) zero = (v, None)) ∧
  (ioutil_ReadFile file = (data, None) →
   LoadServiceDependants ServiceDependants error zero ioutil_ReadFile yaml_Unmarshal file
   = decodeConfigFile ServiceDependants error zero yaml_Unmarshal data).
Proof.
  unfold LoadServiceDependants, decodeConfigFile. split_and!.
  - destruct (yaml_Unmarshal data zero) as [v [e|]]; eauto.
  - destruct (ioutil_ReadFile file) as [d [e|]]; [eauto|].
    destruct (yaml_Unmarshal d zero) as [v [e|]]; eauto.
  - intros v r. destruct (ioutil_ReadFile file) as [d [e|]]; simpl; [done|].
    destruct (yaml_Unmarshal d zero) as [v' [e|]]; [done|].
    by intros [= <- <-].
  - by intros ->.
Qed.

Lemma LoadServiceDependants_value_xor_error_witness :
  LoadServiceDependants nat string 0%nat example_ReadFile example_Unmarshal
    "/etc/dependants.yaml"
  = decodeConfigFile nat string 0%nat example_Unmarshal (Some [Byte.x09; Byte.x61]).
Proof.
  apply (LoadServiceDependants_value_xor_error nat string 0%nat example_ReadFile
           example_Unmarshal "/etc/dependants.yaml" (Some [Byte.x09; Byte.x61])).
  reflexivity.
Defined.
